(** * Interactive sound wave visualizer: waveform evaluator and frame loop

    Shallow embedding of [src/app.py].

    - [generate_waveform] is the closed-form evaluator (lines 90-108).
    - [create_animation_frame] describes what one frame draws (lines 111-169).
    - [update_animation] and [run_app] are the frame generation, the playback
      loop and the surrounding [try]/[except] (lines 235-260), written in a
      small state-and-exception monad over the user-interface state.

    Numbers: the program computes with numpy doubles; they are modelled by
    the real numbers [R], so that [np.sin], [np.exp], [np.abs] and [np.pi]
    are [sin], [exp], [Rabs] and [PI].  Rounding is outside the model. *)

From Stdlib Require Import Reals Lra Lia String List ZArith Bool.
Import ListNotations.
Open Scope R_scope.

(** ** numpy primitives used by the program *)

Module Np.

(** [np.sign]: -1, 0 or 1 according to the sign of the argument. *)
Definition sign (v : R) : R :=
  if Rlt_dec v 0 then -1
  else if Rlt_dec 0 v then 1
  else 0.

(** [np.floor], as an integer. *)
Definition floor (v : R) : Z := Int_part v.

(** The [%] operator on floats: [a % b = a - floor(a / b) * b]. *)
Definition mod_ (a b : R) : R := a - IZR (floor (a / b)) * b.

(** [np.deg2rad]. *)
Definition deg2rad (d : R) : R := d * (PI / 180).

(** [np.linspace(start, stop, num)] with the default [endpoint=True]:
    [num] samples [start + i * step], [step = (stop - start) / (num - 1)];
    when [num - 1 = 0] no division takes place. *)
Definition linspace (start stop : R) (num : nat) : list R :=
  let div := (num - 1)%nat in
  let delta := stop - start in
  let step := if Nat.eqb div 0 then delta else delta / INR div in
  map (fun i => start + INR i * step) (seq 0 num).

End Np.

(** ** Parameters read from the sidebar *)

Inductive Waveform : Type := Sine | Square | Sawtooth | Triangle.

Record Controls : Type := mkControls {
  waveform : Waveform;
  freq : R;
  amplitude : R;
  phase : R;            (* degrees *)
  damping : R;
  speed : R;
  show_envelope : bool;
  show_particles : bool;
  grid_visible : bool;
  dark_mode : bool
}.

(** ** The waveform evaluator *)

(** Lines 91: the phase advanced by the travelling time.  [speed] is the
    module-level slider value read inside [generate_waveform]. *)
Definition phase_adjusted (speed time_point freq phase_rad : R) : R :=
  phase_rad + time_point * freq * 2 * PI * speed.

(** Lines 94-99: the amplitude at position [x]. *)
Definition effective_amp (x amp damping : R) : R :=
  if Rlt_dec 0 damping then
    let damping_factor := exp (- damping * Rabs x) in
    amp * damping_factor
  else amp.

(** Lines 90-108, at one position [x] (the program maps it over an array). *)
Definition generate_waveform (speed : R) (x time_point : R)
    (waveform_type : Waveform) (freq amp phase_rad damping : R) : R :=
  let pa := phase_adjusted speed time_point freq phase_rad in
  let ea := effective_amp x amp damping in
  match waveform_type with
  | Sine => ea * sin (2 * PI * freq * x + pa)
  | Square => ea * Np.sign (sin (2 * PI * freq * x + pa))
  | Sawtooth => ea * (2 * Np.mod_ (freq * x + pa / (2 * PI)) 1 - 1)
  | Triangle =>
      ea * (2 * Rabs (2 * Np.mod_ (freq * x + pa / (2 * PI)) 1 - 1) - 1)
  end.

(** The same evaluator with the damped formula applied unconditionally:
    the amplitude is always [amp * exp (- damping * |x|)]. *)
Definition damped_amp (x amp damping : R) : R :=
  amp * exp (- damping * Rabs x).

Definition generate_waveform_damped (speed : R) (x time_point : R)
    (waveform_type : Waveform) (freq amp phase_rad damping : R) : R :=
  let pa := phase_adjusted speed time_point freq phase_rad in
  let ea := damped_amp x amp damping in
  match waveform_type with
  | Sine => ea * sin (2 * PI * freq * x + pa)
  | Square => ea * Np.sign (sin (2 * PI * freq * x + pa))
  | Sawtooth => ea * (2 * Np.mod_ (freq * x + pa / (2 * PI)) 1 - 1)
  | Triangle =>
      ea * (2 * Rabs (2 * Np.mod_ (freq * x + pa / (2 * PI)) 1 - 1) - 1)
  end.

(** ** One frame *)

(** What [create_animation_frame] draws before rasterizing: the wave over
    the sample grid, the optional envelope curves and particle scatter, the
    grid and theme switches, and the readout of kind, frequency and
    amplitude. *)
Record Frame : Type := mkFrame {
  fr_wave : list (R * R);
  fr_envelope : option (list (R * R) * list (R * R));
  fr_particles : option (list (R * R));
  fr_grid : bool;
  fr_dark : bool;
  fr_info : Waveform * R * R
}.

Definition sample_grid : list R := Np.linspace 0 2 1000.
Definition particle_grid : list R := Np.linspace 0 2 30.

Definition create_animation_frame (c : Controls) (time_point : R) : Frame :=
  let phase_rad := Np.deg2rad (phase c) in
  let wave xs :=
    map (fun x => (x, generate_waveform (speed c) x time_point (waveform c)
                        (freq c) (amplitude c) phase_rad (damping c))) xs in
  let x := sample_grid in
  {| fr_wave := wave x;
     fr_envelope :=
       if show_envelope c && (if Rlt_dec 0 (damping c) then true else false)
       then Some
         (map (fun x => (x, amplitude c * exp (- damping c * Rabs x))) x,
          map (fun x => (x, - amplitude c * exp (- damping c * Rabs x))) x)
       else None;
     fr_particles :=
       if show_particles c then Some (wave particle_grid) else None;
     fr_grid := grid_visible c;
     fr_dark := dark_mode c;
     fr_info := (waveform c, freq c, amplitude c) |}.

(** Line 236. *)
Definition time_points : list R := Np.linspace 0 1 20.

(** ** The user interface as state, and calls that may raise *)

(** The kinds of library call the script makes once the controls are read. *)
Inductive Op : Type :=
| OpRender      (* create_animation_frame: matplotlib and PIL *)
| OpProgress    (* st.progress, progress_bar.progress, progress_bar.empty *)
| OpImage       (* animation_placeholder.image *)
| OpSleep       (* time.sleep *)
| OpWarning.    (* st.warning *)

Record UI : Type := mkUI {
  calls : nat;                    (* library calls made so far *)
  placeholder : option Frame;     (* content of animation_placeholder *)
  displayed : list Frame;         (* every image shown, newest first *)
  progress_bar : option R;        (* None: no bar, or emptied *)
  slept : list R;                 (* delays passed to time.sleep *)
  warnings : list string          (* messages of st.warning, newest first *)
}.

Definition initial_ui : UI :=
  {| calls := 0; placeholder := None; displayed := [];
     progress_bar := None; slept := []; warnings := [] |}.

(** How a computation ends: it returns, an exception escapes it, or it is
    still running when the fuel given to the playback loop is used up. *)
Inductive Outcome (A : Type) : Type :=
| Returned (a : A)
| Raised
| Running.
Arguments Returned {A} a.
Arguments Raised {A}.
Arguments Running {A}.

Definition M (A : Type) : Type := UI -> Outcome A * UI.

Definition ret {A} (a : A) : M A := fun s => (Returned a, s).

Definition bind {A B} (m : M A) (k : A -> M B) : M B :=
  fun s =>
    match m s with
    | (Returned a, s') => k a s'
    | (Raised, s') => (Raised, s')
    | (Running, s') => (Running, s')
    end.

Definition raise {A} : M A := fun s => (Raised, s).

(** [try: m except: h] with a bare [except]. *)
Definition try_except {A} (m : M A) (h : M A) : M A :=
  fun s =>
    match m s with
    | (Raised, s') => h s'
    | r => r
    end.

Notation "x <- m ;; k" := (bind m (fun x => k))
  (at level 61, m at next level, right associativity).
Notation "m ;;; k" := (bind m (fun _ => k))
  (at level 61, right associativity).

Definition tick (s : UI) : UI :=
  {| calls := S (calls s); placeholder := placeholder s;
     displayed := displayed s; progress_bar := progress_bar s;
     slept := slept s; warnings := warnings s |}.

Section Script.

(** Which library calls raise: [raises op n] says whether the call of kind
    [op] made when [n] calls have already been made raises an exception. *)
Variable raises : Op -> nat -> bool.

(** The controls of the current run of the script. *)
Variable c : Controls.

(** A library call of kind [op] whose effect on the interface is [f]. *)
Definition call {A} (op : Op) (f : UI -> A * UI) : M A :=
  fun s =>
    if raises op (calls s) then (Raised, tick s)
    else let (a, s') := f (tick s) in (Returned a, s').

Definition render (time_point : R) : M Frame :=
  call OpRender (fun s => (create_animation_frame c time_point, s)).

Definition set_progress (v : option R) : M unit :=
  call OpProgress (fun s =>
    (tt, {| calls := calls s; placeholder := placeholder s;
            displayed := displayed s; progress_bar := v;
            slept := slept s; warnings := warnings s |})).

Definition image (f : Frame) : M unit :=
  call OpImage (fun s =>
    (tt, {| calls := calls s; placeholder := Some f;
            displayed := f :: displayed s; progress_bar := progress_bar s;
            slept := slept s; warnings := warnings s |})).

Definition sleep (d : R) : M unit :=
  call OpSleep (fun s =>
    (tt, {| calls := calls s; placeholder := placeholder s;
            displayed := displayed s; progress_bar := progress_bar s;
            slept := d :: slept s; warnings := warnings s |})).

Definition warning (msg : string) : M unit :=
  call OpWarning (fun s =>
    (tt, {| calls := calls s; placeholder := placeholder s;
            displayed := displayed s; progress_bar := progress_bar s;
            slept := slept s; warnings := msg :: warnings s |})).

(** [enumerate]. *)
Definition enumerate {A} (l : list A) : list (nat * A) :=
  combine (seq 0 (length l)) l.

(** Lines 241-243: the body of the [for] loop over the remaining pairs. *)
Fixpoint append_frames (total : nat) (its : list (nat * R))
    (frames : list Frame) : M (list Frame) :=
  match its with
  | [] => ret frames
  | (i, t) :: rest =>
      f <- render t ;;
      set_progress (Some ((INR i + 1) / INR total)) ;;;
      append_frames total rest (frames ++ [f])
  end.

(** Lines 236-245: all frames are generated before anything is shown. *)
Definition generate_frames : M (list Frame) :=
  set_progress (Some 0) ;;;
  frames <- append_frames (length time_points) (enumerate time_points) [] ;;
  set_progress None ;;;
  ret frames.

(** Lines 248-252: [while True]; the fuel bounds the iterations observed. *)
Fixpoint play (fuel : nat) (frames : list Frame) (frame_idx : nat) : M unit :=
  match fuel with
  | O => fun s => (Running, s)
  | S fuel' =>
      match nth_error frames frame_idx with
      | None => raise             (* IndexError *)
      | Some f =>
          image f ;;;
          match length frames with
          | O => raise            (* ZeroDivisionError *)
          | S _ =>
              let frame_idx' := ((frame_idx + 1) mod length frames)%nat in
              sleep (0.05 / speed c) ;;;
              play fuel' frames frame_idx'
          end
      end
  end.

Definition update_animation (fuel : nat) : M unit :=
  frames <- generate_frames ;;
  play fuel frames 0.

Definition paused_message : string :=
  "Animation paused. Adjust parameters to see changes."%string.

(** Line 259-260: the handler. *)
Definition show_static_frame : M unit :=
  f <- render 0 ;;
  image f ;;;
  warning paused_message.

(** Lines 255-260. *)
Definition run_app (fuel : nat) : M unit :=
  try_except (update_animation fuel) show_static_frame.

End Script.

(** The frames a generation collects, in order. *)
Definition frames_of (c : Controls) (ts : list R) : list Frame :=
  map (create_animation_frame c) ts.

(** ** Scenarios *)

(** The sidebar defaults. *)
Definition default_controls : Controls :=
  {| waveform := Sine; freq := 5; amplitude := 0.8; phase := 0;
     damping := 0; speed := 1; show_envelope := false;
     show_particles := false; grid_visible := true; dark_mode := false |}.

(** Rendering raises on every call, every other library call succeeds. *)
Definition render_always_raises (op : Op) (n : nat) : bool :=
  match op with
  | OpRender => true
  | _ => false
  end.

(** The first display of the playback loop raises (42 library calls precede
    it: the progress bar, 20 renderings each followed by a progress update,
    and the removal of the bar); every other call succeeds. *)
Definition first_display_raises (op : Op) (n : nat) : bool :=
  match op with
  | OpImage => Nat.eqb n 42
  | _ => false
  end.

(** The defaults with damping, envelope and particles switched on. *)
Definition damped_controls : Controls :=
  {| waveform := Sine; freq := 5; amplitude := 0.8; phase := 0;
     damping := 0.1; speed := 1; show_envelope := true;
     show_particles := true; grid_visible := true; dark_mode := false |}.

(** The second rendering raises (three library calls precede it); every
    other call succeeds. *)
Definition second_render_raises (op : Op) (n : nat) : bool :=
  match op with
  | OpRender => Nat.eqb n 3
  | _ => false
  end.

(** No library call raises. *)
Definition nothing_raises (op : Op) (n : nat) : bool := false.

(** Two interface states that show the same things: placeholder, images
    shown, sleeps and warnings; the progress bar and the call count may
    differ. *)
Definition same_screen (s s' : UI) : Prop :=
  placeholder s' = placeholder s /\ displayed s' = displayed s
  /\ slept s' = slept s /\ warnings s' = warnings s.

(** The progress bar, when there is one, shows a fraction of the unit
    interval. *)
Definition progress_in_range (s : UI) : Prop :=
  forall v, progress_bar s = Some v -> 0 <= v <= 1.


(** * Properties of the evaluator *)

Section EvaluatorFacts.

Lemma effective_amp_undamped x amp : effective_amp x amp 0 = amp.
Proof.
  unfold effective_amp. destruct (Rlt_dec 0 0) as [H | _]; [lra | reflexivity].
Qed.

Lemma effective_amp_positive_rate x amp d :
  0 < d -> effective_amp x amp d = amp * exp (- d * Rabs x).
Proof.
  intros Hd. unfold effective_amp.
  destruct (Rlt_dec 0 d) as [_ | H]; [reflexivity | contradiction].
Qed.

Lemma effective_amp_damped x amp d :
  0 <= d -> effective_amp x amp d = damped_amp x amp d.
Proof.
  intros [Hd | <-].
  - now apply effective_amp_positive_rate.
  - rewrite effective_amp_undamped. unfold damped_amp.
    replace (- 0 * Rabs x) with 0 by ring. rewrite exp_0. ring.
Qed.

Lemma sign_cases v :
  (v < 0 /\ Np.sign v = -1) \/ (v = 0 /\ Np.sign v = 0) \/
  (0 < v /\ Np.sign v = 1).
Proof.
  unfold Np.sign.
  destruct (Rlt_dec v 0) as [Hn | Hn]; [now left |].
  destruct (Rlt_dec 0 v) as [Hp | Hp]; [now right; right |].
  right; left. split; [lra | reflexivity].
Qed.

Lemma mod_1_frac a : Np.mod_ a 1 = frac_part a.
Proof.
  unfold Np.mod_, Np.floor, frac_part.
  replace (a / 1) with a by field. ring.
Qed.

Lemma mod_1_range a : 0 <= Np.mod_ a 1 < 1.
Proof.
  rewrite mod_1_frac. destruct (base_fp a) as [H0 H1]. lra.
Qed.

Lemma mod_1_next a : Np.mod_ (a + 1) 1 = Np.mod_ a 1.
Proof.
  rewrite !mod_1_frac. unfold frac_part.
  assert (E : Int_part (a + 1) = (Int_part a + 1)%Z).
  { symmetry. apply Int_part_spec. rewrite plus_IZR.
    destruct (base_Int_part a) as [H1 H2]. simpl. lra. }
  rewrite E, plus_IZR. simpl. ring.
Qed.

End EvaluatorFacts.

(** C2: with the amplitude in [0.1, 1] and a non-negative damping rate, the
    Sine output is bounded in absolute value by
    [amp * exp (- damping * |x|)] at every position and time; with damping
    rate 0 it lies between [- amp] and [amp]. *)
Theorem sine_within_envelope (spd x t f amp ph d : R) :
  0.1 <= amp <= 1 -> 0 <= d ->
  Rabs (generate_waveform spd x t Sine f amp ph d)
    <= amp * exp (- d * Rabs x)
  /\ - amp <= generate_waveform spd x t Sine f amp ph 0 <= amp.
Proof.
  intros [Ha _] Hd.
  split.
  - unfold generate_waveform. rewrite effective_amp_damped by exact Hd.
    unfold damped_amp.
    set (e := exp (- d * Rabs x)). set (u := _ + _).
    assert (He : 0 < e) by apply exp_pos.
    rewrite !Rabs_mult, (Rabs_pos_eq amp), (Rabs_pos_eq e) by lra.
    assert (Hs : Rabs (sin u) <= 1).
    { apply Rabs_le. destruct (SIN_bound u); split; lra. }
    assert (Hp : 0 <= Rabs (sin u)) by apply Rabs_pos.
    assert (Hae : 0 < amp * e) by nra.
    replace (amp * e) with (amp * e * 1) at 2 by ring.
    apply Rmult_le_compat_l; lra.
  - unfold generate_waveform. rewrite effective_amp_undamped.
    destruct (SIN_bound (2 * PI * f * x + phase_adjusted spd t f ph)).
    split; nra.
Qed.

Lemma sine_within_envelope_witness :
  Rabs (generate_waveform 1 0 0 Sine 5 0.8 0 0.1)
    <= 0.8 * exp (- (0.1) * Rabs 0)
  /\ - (0.8) <= generate_waveform 1 0 0 Sine 5 0.8 0 0 <= 0.8.
Proof.
  apply (sine_within_envelope 1 0 0 5 0.8 0 0.1); lra.
Defined.

(** C3: the Square output is the effective amplitude times the sign of
    [sin u], [u = 2 pi freq x + phase]: it is one of [- ea], [0], [ea];
    the sign factor is 0 exactly when [sin u = 0], it is [ea] where the
    sine is positive and [- ea] where it is negative. *)
Theorem square_three_values (spd x t f amp ph d : R) :
  let ea := effective_amp x amp d in
  let u := 2 * PI * f * x + phase_adjusted spd t f ph in
  let y := generate_waveform spd x t Square f amp ph d in
  (y = - ea \/ y = 0 \/ y = ea)
  /\ y = ea * Np.sign (sin u)
  /\ (Np.sign (sin u) = 0 <-> sin u = 0)
  /\ (sin u < 0 <-> Np.sign (sin u) = -1)
  /\ (0 < sin u <-> Np.sign (sin u) = 1)
  /\ (ea <> 0 -> (y = 0 <-> sin u = 0)).
Proof.
  intros ea u y.
  assert (Hy : y = ea * Np.sign (sin u)) by reflexivity.
  destruct (sign_cases (sin u)) as [[Hs E] | [[Hs E] | [Hs E]]];
    rewrite E in *;
    (repeat match goal with |- _ /\ _ => split end;
    [ first [left; lra | right; left; lra | right; right; lra]
    | exact Hy
    | split; intros; lra
    | split; intros; lra
    | split; intros; lra
    | intros Hne; split; intros H0;
      first [lra | exfalso; apply Hne; lra] ]).
Qed.

(** C4: with damping rate 0 and a positive frequency, the Sawtooth and the
    Triangle outputs at [x] and at [x + 1 / freq] are equal. *)
Theorem sawtooth_triangle_periodic (spd x t f amp ph : R) :
  0 < f ->
  generate_waveform spd (x + 1 / f) t Sawtooth f amp ph 0
    = generate_waveform spd x t Sawtooth f amp ph 0
  /\ generate_waveform spd (x + 1 / f) t Triangle f amp ph 0
    = generate_waveform spd x t Triangle f amp ph 0.
Proof.
  intros Hf. unfold generate_waveform. rewrite !effective_amp_undamped.
  set (pa := phase_adjusted spd t f ph).
  replace (f * (x + 1 / f)) with (f * x + 1) by (field; lra).
  replace (f * x + 1 + pa / (2 * PI))
    with (f * x + pa / (2 * PI) + 1) by ring.
  rewrite mod_1_next. split; reflexivity.
Qed.

Lemma sawtooth_triangle_periodic_witness :
  generate_waveform 1 (0 + 1 / 5) 0 Sawtooth 5 0.8 0 0
    = generate_waveform 1 0 0 Sawtooth 5 0.8 0 0
  /\ generate_waveform 1 (0 + 1 / 5) 0 Triangle 5 0.8 0 0
    = generate_waveform 1 0 0 Triangle 5 0.8 0 0.
Proof.
  apply (sawtooth_triangle_periodic 1 0 0 5 0.8 0); lra.
Defined.

(** C5: at a fixed position [x > 0] and amplitude [amp > 0], a larger
    positive damping rate gives a strictly smaller effective amplitude. *)
Theorem damping_strictly_monotone (x amp d1 d2 : R) :
  0 < x -> 0 < amp -> 0 < d1 -> d1 < d2 ->
  effective_amp x amp d2 < effective_amp x amp d1.
Proof.
  intros Hx Ha H1 H12.
  rewrite !effective_amp_positive_rate by lra.
  apply Rmult_lt_compat_l; [exact Ha |].
  apply exp_increasing. rewrite (Rabs_pos_eq x) by lra. nra.
Qed.

Lemma damping_strictly_monotone_witness :
  effective_amp 1 0.8 0.2 < effective_amp 1 0.8 0.1.
Proof.
  apply (damping_strictly_monotone 1 0.8 0.1 0.2); lra.
Defined.

(** C8: at position 0 a positive damping rate changes nothing: the output
    of every waveform kind equals the output computed with damping rate 0. *)
Theorem damping_vanishes_at_origin (spd t : R) (w : Waveform)
    (f amp ph d : R) :
  0 < d ->
  generate_waveform spd 0 t w f amp ph d
    = generate_waveform spd 0 t w f amp ph 0.
Proof.
  intros Hd. unfold generate_waveform.
  rewrite effective_amp_undamped, effective_amp_positive_rate by exact Hd.
  rewrite Rabs_R0, Rmult_0_r, exp_0, Rmult_1_r. reflexivity.
Qed.

Lemma damping_vanishes_at_origin_witness :
  generate_waveform 1 0 0.5 Triangle 5 0.8 0 0.1
    = generate_waveform 1 0 0.5 Triangle 5 0.8 0 0.
Proof.
  apply (damping_vanishes_at_origin 1 0.5 Triangle 5 0.8 0 0.1); lra.
Defined.

(** C9: when the effective amplitude [ea] is positive, the Sawtooth output
    lies in the half-open interval from [- ea] to [ea]: it never reaches
    [ea]. *)
Theorem sawtooth_below_upper_bound (spd x t f amp ph d : R) :
  0 < effective_amp x amp d ->
  - effective_amp x amp d
    <= generate_waveform spd x t Sawtooth f amp ph d
    < effective_amp x amp d.
Proof.
  intros Hea. unfold generate_waveform.
  set (ea := effective_amp x amp d) in *.
  set (m := Np.mod_ _ 1).
  assert (Hm : 0 <= m < 1) by apply mod_1_range.
  split; nra.
Qed.

Lemma sawtooth_below_upper_bound_witness :
  - effective_amp 0.3 0.8 0
    <= generate_waveform 1 0.3 0 Sawtooth 5 0.8 0 0
    < effective_amp 0.3 0.8 0.
Proof.
  apply (sawtooth_below_upper_bound 1 0.3 0 5 0.8 0 0).
  rewrite effective_amp_undamped. lra.
Defined.

(** C10: at damping rate 0 the evaluator, which takes the undamped branch,
    agrees with the variant that always applies
    [amp * exp (- damping * |x|)], for every position, time, waveform kind
    and remaining parameters. *)
Theorem undamped_branch_agrees_with_formula (spd x t : R) (w : Waveform)
    (f amp ph : R) :
  generate_waveform spd x t w f amp ph 0
    = generate_waveform_damped spd x t w f amp ph 0.
Proof.
  unfold generate_waveform, generate_waveform_damped.
  rewrite effective_amp_damped by lra. reflexivity.
Qed.

(** * The time points of one generation *)

Section TimePoints.

Lemma linspace_length a b n : length (Np.linspace a b n) = n.
Proof.
  unfold Np.linspace. rewrite length_map. apply length_seq.
Qed.

Lemma INR_19 : INR 19 = 19.
Proof. rewrite INR_IZR_INZ. reflexivity. Qed.

Lemma time_points_spec t :
  In t time_points <-> exists i, (i < 20)%nat /\ t = INR i / 19.
Proof.
  unfold time_points, Np.linspace.
  change (20 - 1)%nat with 19%nat. change (Nat.eqb 19 0) with false.
  cbv iota. rewrite INR_19, in_map_iff.
  split.
  - intros [i [E Hi]]. apply in_seq in Hi. exists i. split; [lia |].
    rewrite <- E. field.
  - intros [i [Hi E]]. exists i. split.
    + rewrite E. field.
    + apply in_seq. lia.
Qed.

Lemma time_points_nth i :
  (i < 20)%nat -> nth i time_points 0 = INR i / 19.
Proof.
  intros Hi. unfold time_points, Np.linspace.
  change (20 - 1)%nat with 19%nat. change (Nat.eqb 19 0) with false.
  cbv iota. rewrite INR_19.
  set (g := fun k : nat => 0 + INR k * ((1 - 0) / 19)).
  replace 0 with (g 0%nat) at 1 by (unfold g; simpl; field).
  rewrite map_nth, seq_nth by exact Hi. unfold g. simpl Nat.add. field.
Qed.

Lemma one_is_a_time_point : In 1 time_points.
Proof.
  apply time_points_spec. exists 19%nat. split; [lia |].
  rewrite INR_19. field.
Qed.

End TimePoints.

(** C1, as stated, fails: the last of the 20 time points is 1, so not every
    time point is below 1. *)
Lemma time_points_reach_one :
  ~ (forall t, In t time_points -> 0 <= t < 1).
Proof.
  intros H. destruct (H 1 one_is_a_time_point) as [_ Hlt]. lra.
Qed.

(** C1, amended: the frame generator builds exactly 20 time points, the
    [i]-th being [i / 19]; they are equally spaced by [1 / 19] and every one
    lies in the closed interval from 0 to 1, both ends included. *)
Theorem time_points_closed_unit_interval :
  length time_points = 20%nat
  /\ (forall i, (i < 20)%nat -> nth i time_points 0 = INR i / 19)
  /\ (forall i, (i < 19)%nat ->
        nth (S i) time_points 0 - nth i time_points 0 = 1 / 19)
  /\ (forall t, In t time_points -> 0 <= t <= 1)
  /\ nth 0 time_points 0 = 0
  /\ nth 19 time_points 0 = 1.
Proof.
  split; [apply linspace_length |].
  split; [exact time_points_nth |].
  split.
  { intros i Hi. rewrite !time_points_nth by lia. rewrite S_INR. field. }
  split.
  { intros t Ht. apply time_points_spec in Ht. destruct Ht as [i [Hi ->]].
    assert (H0 : 0 <= INR i) by apply pos_INR.
    assert (H1 : INR i <= INR 19) by (apply le_INR; lia).
    rewrite INR_19 in H1. split.
    - apply Rmult_le_pos; lra.
    - apply Rmult_le_reg_r with 19; [lra |]. 
      replace (INR i / 19 * 19) with (INR i) by field. lra. }
  split.
  - rewrite time_points_nth by lia. simpl. field.
  - rewrite time_points_nth by lia. rewrite INR_19. field.
Qed.

(** * Frame generation and the playback loop *)

Section ScriptFacts.

Variable raises : Op -> nat -> bool.
Variable c : Controls.

Lemma call_succeeds {A} op (f : UI -> A * UI) s :
  raises op (calls s) = false ->
  call raises op f s = (Returned (fst (f (tick s))), snd (f (tick s))).
Proof.
  intros H. unfold call. rewrite H. now destruct (f (tick s)).
Qed.

Lemma call_raises {A} op (f : UI -> A * UI) s :
  raises op (calls s) = true -> call raises op f s = (Raised, tick s).
Proof.
  intros H. unfold call. now rewrite H.
Qed.

Lemma call_not_running {A} op (f : UI -> A * UI) s :
  fst (call raises op f s) <> Running.
Proof.
  unfold call. destruct (raises op (calls s)); [discriminate |].
  destruct (f (tick s)). discriminate.
Qed.

Lemma append_frames_returned total its :
  forall frames s fs s',
    append_frames raises c total its frames s = (Returned fs, s') ->
    fs = frames ++ frames_of c (map snd its).
Proof.
  induction its as [| [i t] rest IH]; intros frames s fs s' H.
  - cbn in H. injection H as <- _. now rewrite app_nil_r.
  - cbn [append_frames] in H. unfold bind at 1 in H.
    unfold render, call in H.
    destruct (raises OpRender (calls s)); [discriminate |].
    unfold bind at 1 in H.
    destruct (set_progress raises _ _) as [[[] | |] s2]; try discriminate.
    apply IH in H. rewrite H, <- app_assoc. reflexivity.
Qed.

Lemma enumerate_snd {A} (l : list A) : map snd (enumerate l) = l.
Proof.
  unfold enumerate. generalize 0%nat.
  induction l as [| a l IH]; intros n; [reflexivity |].
  cbn. now rewrite IH.
Qed.

Lemma generate_frames_returned s fs s' :
  generate_frames raises c s = (Returned fs, s') ->
  fs = frames_of c time_points.
Proof.
  unfold generate_frames. intros H. unfold bind at 1 in H.
  destruct (set_progress raises (Some 0) s) as [[[] | |] s1];
    try discriminate.
  unfold bind at 1 in H.
  destruct (append_frames _ _ _ _ _ s1) as [[fs1 | |] s2] eqn:E;
    try discriminate.
  apply append_frames_returned in E. rewrite enumerate_snd in E.
  unfold bind at 1 in H.
  destruct (set_progress raises None s2) as [[[] | |] s3]; try discriminate.
  cbn in H. injection H as <- _. exact E.
Qed.

Lemma frames_of_time_points_length : length (frames_of c time_points) = 20%nat.
Proof.
  unfold frames_of. rewrite length_map. apply linspace_length.
Qed.

(** The handler, when its three calls succeed. *)
Lemma show_static_frame_succeeds s1 :
  raises OpRender (calls s1) = false ->
  raises OpImage (S (calls s1)) = false ->
  raises OpWarning (S (S (calls s1))) = false ->
  show_static_frame raises c s1
    = (Returned tt,
       {| calls := S (S (S (calls s1)));
          placeholder := Some (create_animation_frame c 0);
          displayed := create_animation_frame c 0 :: displayed s1;
          progress_bar := progress_bar s1;
          slept := slept s1;
          warnings := paused_message :: warnings s1 |}).
Proof.
  intros Hr Hi Hw. unfold show_static_frame, render, image, warning.
  unfold bind at 1. rewrite call_succeeds by exact Hr. cbn [fst snd].
  unfold bind at 1. rewrite call_succeeds by exact Hi. cbn [fst snd].
  rewrite call_succeeds by exact Hw. reflexivity.
Qed.

(** The handler, when one of its three calls raises. *)
Lemma show_static_frame_raises s1 :
  raises OpRender (calls s1) = true
  \/ raises OpImage (S (calls s1)) = true
  \/ raises OpWarning (S (S (calls s1))) = true ->
  exists s2,
    show_static_frame raises c s1 = (Raised, s2)
    /\ warnings s2 = warnings s1.
Proof.
  intros Hany. unfold show_static_frame, render, image, warning.
  unfold bind at 1.
  destruct (raises OpRender (calls s1)) eqn:Hr.
  { rewrite call_raises by exact Hr. eexists. split; reflexivity. }
  rewrite call_succeeds by exact Hr. cbn [fst snd].
  unfold bind at 1.
  destruct (raises OpImage (S (calls s1))) eqn:Hi.
  { rewrite call_raises by exact Hi. eexists. split; reflexivity. }
  rewrite call_succeeds by exact Hi. cbn [fst snd].
  destruct (raises OpWarning (S (S (calls s1)))) eqn:Hw.
  { rewrite call_raises by exact Hw. eexists. split; reflexivity. }
  destruct Hany as [Hany | [Hany | Hany]]; discriminate.
Qed.

Hypothesis quiet : forall op n, raises op n = false.

Lemma append_frames_quiet total its :
  forall frames s, exists s',
    append_frames raises c total its frames s
      = (Returned (frames ++ frames_of c (map snd its)), s').
Proof.
  induction its as [| [i t] rest IH]; intros frames s.
  - exists s. cbn. now rewrite app_nil_r.
  - cbn [append_frames]. unfold bind at 1. unfold render.
    rewrite call_succeeds by apply quiet. cbn [fst snd].
    unfold bind at 1. unfold set_progress.
    rewrite call_succeeds by apply quiet. cbn [fst snd].
    destruct (IH (frames ++ [create_animation_frame c t])
                 (snd ((fun s0 : UI =>
                    (tt, {| calls := calls s0; placeholder := placeholder s0;
                            displayed := displayed s0;
                            progress_bar := Some ((INR i + 1) / INR total);
                            slept := slept s0; warnings := warnings s0 |}))
                   (tick (tick s))))) as [s' E].
    exists s'. cbn [snd] in E. rewrite E, <- app_assoc. reflexivity.
Qed.

Lemma generate_frames_quiet s :
  exists s',
    generate_frames raises c s = (Returned (frames_of c time_points), s').
Proof.
  unfold generate_frames. unfold bind at 1. unfold set_progress at 1.
  rewrite call_succeeds by apply quiet. cbn [fst snd].
  unfold bind at 1.
  match goal with
  | |- context [append_frames _ _ ?n ?its ?fr ?s0] =>
      destruct (append_frames_quiet n its fr s0) as [s1 E]
  end.
  rewrite E. rewrite enumerate_snd.
  unfold bind at 1. unfold set_progress.
  rewrite call_succeeds by apply quiet. cbn [fst snd].
  eexists. reflexivity.
Qed.

Lemma play_quiet fuel :
  forall frames frame_idx s,
    (frame_idx < length frames)%nat ->
    fst (play raises c fuel frames frame_idx s) = Running.
Proof.
  induction fuel as [| fuel IH]; intros frames frame_idx s Hi;
    [reflexivity |].
  cbn [play].
  destruct (nth_error frames frame_idx) as [f |] eqn:E.
  2:{ apply nth_error_None in E. lia. }
  unfold bind at 1. unfold image. rewrite call_succeeds by apply quiet.
  cbn [fst snd].
  destruct (length frames) as [| n] eqn:El; [lia |].
  unfold bind at 1. unfold sleep. rewrite call_succeeds by apply quiet.
  cbn [fst snd]. apply IH. rewrite El. apply Nat.mod_upper_bound. lia.
Qed.

(** When no library call raises, the script is still in the playback loop
    whatever the number of iterations observed: the handler is not reached. *)
Lemma update_animation_quiet fuel s :
  fst (update_animation raises c fuel s) = Running
  /\ fst (run_app raises c fuel s) = Running.
Proof.
  assert (H : fst (update_animation raises c fuel s) = Running).
  { unfold update_animation, bind.
    destruct (generate_frames_quiet s) as [s' E]. rewrite E.
    apply play_quiet. rewrite frames_of_time_points_length. lia. }
  split; [exact H |].
  unfold run_app, try_except.
  destruct (update_animation raises c fuel s) as [[[] | |] s'];
    cbn in H; try discriminate. reflexivity.
Qed.

End ScriptFacts.

(** C6: with frequency 5, amplitude 0.8, phase 0 degrees and damping 0, the
    Sine evaluator at time 0 gives 0 at position 0 and 0.8 at position 0.05,
    whatever the animation speed; and a frame generation that completes
    has collected exactly 20 frames, which it does whenever no library call
    raises. *)
Theorem sine_scenario_and_frame_count :
  (forall spd, generate_waveform spd 0 0 Sine 5 0.8 (Np.deg2rad 0) 0 = 0)
  /\ (forall spd,
        generate_waveform spd 0.05 0 Sine 5 0.8 (Np.deg2rad 0) 0 = 0.8)
  /\ (forall raises c s fs s',
        generate_frames raises c s = (Returned fs, s') ->
        length fs = 20%nat)
  /\ (forall c s, exists fs s',
        generate_frames (fun _ _ => false) c s = (Returned fs, s')
        /\ length fs = 20%nat).
Proof.
  split; [| split; [| split]].
  - intros spd. unfold generate_waveform, phase_adjusted, Np.deg2rad.
    rewrite effective_amp_undamped.
    replace (2 * PI * 5 * 0 + (0 * (PI / 180) + 0 * 5 * 2 * PI * spd))
      with 0 by ring.
    rewrite sin_0. ring.
  - intros spd. unfold generate_waveform, phase_adjusted, Np.deg2rad.
    rewrite effective_amp_undamped.
    replace (2 * PI * 5 * 0.05 + (0 * (PI / 180) + 0 * 5 * 2 * PI * spd))
      with (PI / 2) by lra.
    rewrite sin_PI2. ring.
  - intros raises c s fs s' H.
    apply generate_frames_returned in H. subst fs.
    apply frames_of_time_points_length.
  - intros c s.
    destruct (generate_frames_quiet (fun _ _ => false) c
                (fun _ _ => eq_refl) s) as [s' E].
    exists (frames_of c time_points), s'. split; [exact E |].
    apply frames_of_time_points_length.
Qed.

(** ** The handler around the animation *)

(** C7, as stated, fails: when rendering raises on every call, frame
    generation raises, the handler's own rendering raises again, and the
    script ends with the exception uncaught, no frame shown and no warning
    issued. *)
Lemma fallback_can_raise_again :
  fst (update_animation render_always_raises default_controls 1 initial_ui)
    = Raised
  /\ fst (run_app render_always_raises default_controls 1 initial_ui)
       = Raised
  /\ placeholder
       (snd (run_app render_always_raises default_controls 1 initial_ui))
       = None
  /\ displayed
       (snd (run_app render_always_raises default_controls 1 initial_ui))
       = []
  /\ warnings
       (snd (run_app render_always_raises default_controls 1 initial_ui))
       = [].
Proof.
  repeat split; reflexivity.
Qed.

(** C7, amended: if frame generation or display raises, the loop is left
    for good and the handler runs once from the state reached.  If the
    handler's own rendering, display and warning calls do not raise, the
    script goes on normally with the frame rendered at time 0 in the
    placeholder, that frame as the only image shown since the error, one
    warning added, no further sleep and three library calls made in all; if
    one of them raises, the exception escapes the script and no warning is
    issued. *)
Theorem fallback_after_error (raises : Op -> nat -> bool) (c : Controls)
    (fuel : nat) (s s1 : UI) :
  update_animation raises c fuel s = (Raised, s1) ->
  run_app raises c fuel s = show_static_frame raises c s1
  /\ (raises OpRender (calls s1) = false ->
      raises OpImage (S (calls s1)) = false ->
      raises OpWarning (S (S (calls s1))) = false ->
      exists s2,
        run_app raises c fuel s = (Returned tt, s2)
        /\ placeholder s2 = Some (create_animation_frame c 0)
        /\ displayed s2 = create_animation_frame c 0 :: displayed s1
        /\ warnings s2 = paused_message :: warnings s1
        /\ slept s2 = slept s1
        /\ calls s2 = (calls s1 + 3)%nat)
  /\ (raises OpRender (calls s1) = true
      \/ raises OpImage (S (calls s1)) = true
      \/ raises OpWarning (S (S (calls s1))) = true ->
      fst (run_app raises c fuel s) = Raised
      /\ warnings (snd (run_app raises c fuel s)) = warnings s1).
Proof.
  intros H.
  assert (E : run_app raises c fuel s = show_static_frame raises c s1).
  { unfold run_app, try_except. now rewrite H. }
  split; [exact E |]. rewrite E. clear E H.
  split.
  - intros Hr Hi Hw.
    rewrite (show_static_frame_succeeds raises c s1 Hr Hi Hw).
    eexists. split; [reflexivity |]. cbn. repeat split. lia.
  - intros Hany.
    destruct (show_static_frame_raises raises c s1 Hany) as [s2 [-> Hw]].
    split; [reflexivity | exact Hw].
Qed.

Lemma fallback_after_error_witness :
  exists s2,
    run_app first_display_raises default_controls 1 initial_ui
      = (Returned tt, s2)
    /\ placeholder s2 = Some (create_animation_frame default_controls 0)
    /\ displayed s2 = [create_animation_frame default_controls 0]
    /\ warnings s2 = [paused_message]
    /\ slept s2 = []
    /\ calls s2 = 46%nat.
Proof.
  destruct (fallback_after_error first_display_raises default_controls 1
              initial_ui
              {| calls := 43; placeholder := None; displayed := [];
                 progress_bar := None; slept := []; warnings := [] |}
              eq_refl) as [_ [Hok _]].
  exact (Hok eq_refl eq_refl eq_refl).
Defined.

(** * Instances at the sidebar defaults *)

Lemma time_points_closed_unit_interval_witness : 0 <= 1 <= 1.
Proof.
  destruct time_points_closed_unit_interval as (_ & _ & _ & Hin & _).
  exact (Hin 1 one_is_a_time_point).
Defined.

Lemma square_three_values_witness :
  generate_waveform 1 0.05 0 Square 5 0.8 0 0
    = effective_amp 0.05 0.8 0
      * Np.sign (sin (2 * PI * 5 * 0.05 + phase_adjusted 1 0 5 0)).
Proof.
  exact (proj1 (proj2 (square_three_values 1 0.05 0 5 0.8 0 0))).
Defined.

Lemma sine_scenario_and_frame_count_witness :
  exists fs s',
    generate_frames (fun _ _ => false) default_controls initial_ui
      = (Returned fs, s')
    /\ length fs = 20%nat.
Proof.
  destruct sine_scenario_and_frame_count as (_ & _ & _ & Hgen).
  exact (Hgen default_controls initial_ui).
Defined.

(** * Further properties of the evaluator *)

Section ShapeFacts.

Lemma effective_amp_scales x amp d :
  effective_amp x amp d = amp * effective_amp x 1 d.
Proof.
  unfold effective_amp. destruct (Rlt_dec 0 d); ring.
Qed.

(** The output is the effective amplitude times the shape of unit
    amplitude without damping. *)
Lemma waveform_factor spd x t w f amp ph d :
  generate_waveform spd x t w f amp ph d
    = effective_amp x amp d * generate_waveform spd x t w f 1 ph 0.
Proof.
  unfold generate_waveform. rewrite (effective_amp_undamped x 1).
  destruct w; ring.
Qed.

Lemma sign_range v : -1 <= Np.sign v <= 1.
Proof.
  destruct (sign_cases v) as [[_ E] | [[_ E] | [_ E]]]; rewrite E; lra.
Qed.

Lemma unit_waveform_range spd x t w f ph :
  -1 <= generate_waveform spd x t w f 1 ph 0 <= 1.
Proof.
  unfold generate_waveform. rewrite effective_amp_undamped.
  destruct w.
  - destruct (SIN_bound (2 * PI * f * x + phase_adjusted spd t f ph)). lra.
  - destruct (sign_range (sin (2 * PI * f * x + phase_adjusted spd t f ph))).
    lra.
  - destruct (mod_1_range (f * x + phase_adjusted spd t f ph / (2 * PI))).
    lra.
  - destruct (mod_1_range (f * x + phase_adjusted spd t f ph / (2 * PI))).
    unfold Rabs. destruct (Rcase_abs _); lra.
Qed.





Lemma sign_scale a v : 0 < a -> Np.sign (a * v) = Np.sign v.
Proof.
  intros Ha.
  destruct (sign_cases v) as [[H E] | [[H E] | [H E]]]; rewrite E;
    destruct (sign_cases (a * v)) as [[H' E'] | [[H' E'] | [H' E']]];
    rewrite E'; try reflexivity; exfalso; nra.
Qed.

End ShapeFacts.

Lemma waveform_bounded (spd x t : R) (w : Waveform)
    (f amp ph d : R) :
  0 <= d ->
  Rabs (generate_waveform spd x t w f amp ph d)
    <= Rabs amp * exp (- d * Rabs x).
Proof.
  intros Hd. rewrite waveform_factor, effective_amp_damped by exact Hd.
  unfold damped_amp. rewrite !Rabs_mult.
  rewrite (Rabs_pos_eq (exp _)) by (left; apply exp_pos).
  assert (Hs : Rabs (generate_waveform spd x t w f 1 ph 0) <= 1).
  { apply Rabs_le. apply unit_waveform_range. }
  assert (Ha : 0 <= Rabs amp * exp (- d * Rabs x)).
  { apply Rmult_le_pos; [apply Rabs_pos | left; apply exp_pos]. }
  rewrite <- (Rmult_1_r (Rabs amp * exp (- d * Rabs x))) at 2.
  apply Rmult_le_compat_l; assumption.
Qed.

(** X1: for a non-negative damping rate, the output of every waveform kind
    is bounded in absolute value by [|amp| * exp (- damping * |x|)], the
    envelope the frame draws. *)
Theorem waveform_within_envelope (spd x t : R) (w : Waveform)
    (f amp ph d : R) :
  0 <= d ->
  Rabs (generate_waveform spd x t w f amp ph d)
    <= Rabs amp * exp (- d * Rabs x).
Proof.
  apply waveform_bounded.
Qed.

Lemma waveform_within_envelope_witness :
  Rabs (generate_waveform 1 0.3 0.5 Triangle 5 0.8 0 0.1)
    <= Rabs 0.8 * exp (- (0.1) * Rabs 0.3).
Proof.
  apply (waveform_within_envelope 1 0.3 0.5 Triangle 5 0.8 0 0.1); lra.
Defined.

(** X2: the output is linear in the amplitude: it is the amplitude times
    the output computed with amplitude 1, for every kind and damping. *)
Theorem amplitude_scales_output (spd x t : R) (w : Waveform)
    (f amp ph d : R) :
  generate_waveform spd x t w f amp ph d
    = amp * generate_waveform spd x t w f 1 ph d.
Proof.
  rewrite waveform_factor, (waveform_factor spd x t w f 1 ph d).
  rewrite effective_amp_scales. ring.
Qed.

Lemma effective_amp_range (x amp d : R) :
  0 < amp -> 0 <= d ->
  0 < effective_amp x amp d <= amp
  /\ effective_amp (- x) amp d = effective_amp x amp d.
Proof.
  intros Ha Hd. split.
  - rewrite effective_amp_damped by exact Hd. unfold damped_amp.
    assert (He : 0 < exp (- d * Rabs x)) by apply exp_pos.
    assert (H1 : exp (- d * Rabs x) <= 1).
    { rewrite <- exp_0.
      assert (Hx : 0 <= Rabs x) by apply Rabs_pos.
      destruct (Req_dec (- d * Rabs x) 0) as [-> | Hne]; [lra |].
      left. apply exp_increasing. nra. }
    split; nra.
  - unfold effective_amp. now rewrite Rabs_Ropp.
Qed.

(** X3: damping never amplifies and never cancels: for a positive amplitude
    and a non-negative damping rate the effective amplitude is positive and
    at most the amplitude; it is the same at [x] and at [- x]. *)
Theorem damping_never_amplifies (x amp d : R) :
  0 < amp -> 0 <= d ->
  0 < effective_amp x amp d <= amp
  /\ effective_amp (- x) amp d = effective_amp x amp d.
Proof.
  apply effective_amp_range.
Qed.

Lemma damping_never_amplifies_witness :
  0 < effective_amp 1.5 0.8 0.2 <= 0.8
  /\ effective_amp (- (1.5)) 0.8 0.2 = effective_amp 1.5 0.8 0.2.
Proof.
  apply (damping_never_amplifies 1.5 0.8 0.2); lra.
Defined.









(** X9: where the effective amplitude is positive, the Square output is
    the effective amplitude times the sign of the Sine output. *)
Theorem square_is_sign_of_sine (spd x t f amp ph d : R) :
  0 < effective_amp x amp d ->
  generate_waveform spd x t Square f amp ph d
    = effective_amp x amp d
      * Np.sign (generate_waveform spd x t Sine f amp ph d).
Proof.
  intros Hea. unfold generate_waveform.
  now rewrite sign_scale by exact Hea.
Qed.

Lemma square_is_sign_of_sine_witness :
  generate_waveform 1 0.3 0.5 Square 5 0.8 0 0
    = effective_amp 0.3 0.8 0
      * Np.sign (generate_waveform 1 0.3 0.5 Sine 5 0.8 0 0).
Proof.
  apply (square_is_sign_of_sine 1 0.3 0.5 5 0.8 0 0).
  rewrite effective_amp_undamped. lra.
Defined.

(** * What a frame draws *)

Section FrameFacts.

Lemma some_eq {A} (a b : A) : Some a = Some b -> a = b.
Proof. congruence. Qed.


Lemma linspace_first a b n : (0 < n)%nat -> In a (Np.linspace a b n).
Proof.
  intros Hn. unfold Np.linspace. apply in_map_iff. exists 0%nat.
  split; [simpl; ring | apply in_seq; lia].
Qed.


Lemma wave_sample (c : Controls) (t : R) (xs : list R) (x y : R) :
  In (x, y)
    (map (fun x => (x, generate_waveform (speed c) x t (waveform c)
                         (freq c) (amplitude c) (Np.deg2rad (phase c))
                         (damping c))) xs) ->
  In x xs
  /\ y = generate_waveform (speed c) x t (waveform c) (freq c)
           (amplitude c) (Np.deg2rad (phase c)) (damping c).
Proof.
  intros Hin. apply in_map_iff in Hin. destruct Hin as [x0 [E Hx]].
  injection E as <- <-. now split.
Qed.


End FrameFacts.



(** X11: the envelope is drawn only with a positive damping rate, and then
    (amplitude not negative) it encloses the wave: for every wave sample
    the two envelope curves hold a sample at the same position, the lower
    one not above and the upper one not below the wave. *)
Theorem envelope_encloses_wave (c : Controls) (t : R)
    (up down : list (R * R)) :
  0 <= amplitude c ->
  fr_envelope (create_animation_frame c t) = Some (up, down) ->
  show_envelope c = true
  /\ 0 < damping c
  /\ forall x y, In (x, y) (fr_wave (create_animation_frame c t)) ->
       exists yu yd,
         In (x, yu) up /\ In (x, yd) down /\ yd <= y <= yu.
Proof.
  intros Ha Henv. unfold create_animation_frame in *.
  cbn [fr_envelope fr_wave] in *.
  destruct (show_envelope c); [| discriminate].
  destruct (Rlt_dec 0 (damping c)) as [Hd | _]; [| discriminate].
  cbn [andb] in Henv. apply some_eq in Henv.
  apply pair_equal_spec in Henv. destruct Henv as [<- <-].
  split; [reflexivity |]. split; [exact Hd |].
  intros x y Hin. apply wave_sample in Hin. destruct Hin as [Hx ->].
  exists (amplitude c * exp (- damping c * Rabs x)),
         (- amplitude c * exp (- damping c * Rabs x)).
  split.
  { apply (in_map (fun x => (x, amplitude c * exp (- damping c * Rabs x)))
             sample_grid x Hx). }
  split.
  { apply (in_map (fun x => (x, - amplitude c * exp (- damping c * Rabs x)))
             sample_grid x Hx). }
  pose proof (waveform_bounded (speed c) x t (waveform c) (freq c)
                (amplitude c) (Np.deg2rad (phase c)) (damping c)) as Hb.
  rewrite (Rabs_pos_eq (amplitude c)) in Hb by exact Ha.
  assert (Hb' := Hb (Rlt_le _ _ Hd)).
  set (y := generate_waveform _ _ _ _ _ _ _ _) in *.
  pose proof (Rle_abs y) as H1. pose proof (Rle_abs (- y)) as H2.
  rewrite Rabs_Ropp in H2. lra.
Qed.

Lemma damped_controls_envelope t :
  fr_envelope (create_animation_frame damped_controls t)
  = Some
      (map (fun x => (x, 0.8 * exp (- (0.1) * Rabs x))) sample_grid,
       map (fun x => (x, - (0.8) * exp (- (0.1) * Rabs x))) sample_grid).
Proof.
  unfold create_animation_frame.
  cbn [fr_envelope show_envelope damping amplitude damped_controls].
  destruct (Rlt_dec 0 0.1) as [_ | H]; [reflexivity | lra].
Qed.

Lemma zero_wave_sample (c : Controls) (t : R) :
  In (0, generate_waveform (speed c) 0 t (waveform c) (freq c)
           (amplitude c) (Np.deg2rad (phase c)) (damping c))
    (fr_wave (create_animation_frame c t)).
Proof.
  unfold create_animation_frame. cbn [fr_wave].
  apply (in_map (fun x => (x, generate_waveform (speed c) x t (waveform c)
                                (freq c) (amplitude c)
                                (Np.deg2rad (phase c)) (damping c)))
           sample_grid 0).
  apply linspace_first. lia.
Qed.

Lemma envelope_encloses_wave_witness :
  exists yu yd,
    In (0, yu)
       (map (fun x => (x, 0.8 * exp (- (0.1) * Rabs x))) sample_grid)
    /\ In (0, yd)
         (map (fun x => (x, - (0.8) * exp (- (0.1) * Rabs x))) sample_grid)
    /\ yd <= generate_waveform 1 0 0.5 Sine 5 0.8 (Np.deg2rad 0) 0.1 <= yu.
Proof.
  destruct (envelope_encloses_wave damped_controls 0.5 _ _
              ltac:(simpl; lra) (damped_controls_envelope 0.5))
    as (_ & _ & Hin).
  exact (Hin _ _ (zero_wave_sample damped_controls 0.5)).
Defined.

Lemma time_points_nth_error i :
  (i < 20)%nat -> nth_error time_points i = Some (INR i / 19).
Proof.
  intros Hi. rewrite <- time_points_nth by exact Hi.
  apply nth_error_nth'. unfold time_points. now rewrite linspace_length.
Qed.



(** * Further properties of the script *)

Section GenerationFacts.

Variable raises : Op -> nat -> bool.
Variable c : Controls.

Lemma same_screen_refl s : same_screen s s.
Proof. repeat split. Qed.

Lemma same_screen_trans s1 s2 s3 :
  same_screen s1 s2 -> same_screen s2 s3 -> same_screen s1 s3.
Proof.
  intros (A1 & A2 & A3 & A4) (B1 & B2 & B3 & B4).
  repeat split; congruence.
Qed.

Lemma render_same_screen t s :
  same_screen s (snd (render raises c t s)).
Proof.
  unfold render, call. destruct (raises OpRender (calls s));
    repeat split.
Qed.

Lemma set_progress_same_screen v s :
  same_screen s (snd (set_progress raises v s)).
Proof.
  unfold set_progress, call. destruct (raises OpProgress (calls s));
    repeat split.
Qed.

Lemma bind_same_screen {A B} (m : M A) (k : A -> M B) s :
  same_screen s (snd (m s)) ->
  (forall a s1, same_screen s1 (snd (k a s1))) ->
  same_screen s (snd (bind m k s)).
Proof.
  intros Hm Hk. unfold bind.
  destruct (m s) as [[a | |] s1]; cbn [snd] in *; try exact Hm.
  eapply same_screen_trans; [exact Hm | apply Hk].
Qed.

Lemma append_frames_same_screen total its :
  forall frames s,
    same_screen s (snd (append_frames raises c total its frames s)).
Proof.
  induction its as [| [i t] rest IH]; intros frames s.
  - apply same_screen_refl.
  - cbn [append_frames]. apply bind_same_screen.
    + apply render_same_screen.
    + intros f s1. apply bind_same_screen.
      * apply set_progress_same_screen.
      * intros _ s2. apply IH.
Qed.

Lemma generate_frames_same_screen s :
  same_screen s (snd (generate_frames raises c s)).
Proof.
  unfold generate_frames. apply bind_same_screen.
  - apply set_progress_same_screen.
  - intros _ s1. apply bind_same_screen.
    + apply append_frames_same_screen.
    + intros fs s2. apply bind_same_screen.
      * apply set_progress_same_screen.
      * intros _ s3. apply same_screen_refl.
Qed.

Lemma append_frames_calls total its :
  forall frames s fs s',
    append_frames raises c total its frames s = (Returned fs, s') ->
    calls s' = (calls s + 2 * length its)%nat.
Proof.
  induction its as [| [i t] rest IH]; intros frames s fs s' H.
  - cbn in H. injection H as _ <-. cbn [length]. lia.
  - cbn [append_frames] in H. unfold bind at 1 in H.
    unfold render, call in H.
    destruct (raises OpRender (calls s)); [discriminate |].
    unfold bind at 1 in H. unfold set_progress, call in H.
    cbn [calls tick] in H.
    destruct (raises OpProgress (S (calls s))); [discriminate |].
    apply IH in H. cbn [calls tick length] in *. lia.
Qed.

Lemma enumerate_length {A} (l : list A) :
  length (enumerate l) = length l.
Proof.
  unfold enumerate. rewrite length_combine, length_seq. lia.
Qed.

Lemma generate_frames_end s fs s' :
  generate_frames raises c s = (Returned fs, s') ->
  progress_bar s' = None /\ calls s' = (calls s + 42)%nat.
Proof.
  unfold generate_frames. intros H. unfold bind at 1 in H.
  unfold set_progress at 1, call in H.
  destruct (raises OpProgress (calls s)); [discriminate |].
  unfold bind at 1 in H.
  destruct (append_frames _ _ _ _ _ _) as [[fs1 | |] s2] eqn:E;
    try discriminate.
  apply append_frames_calls in E.
  rewrite enumerate_length in E. unfold time_points in E.
  rewrite linspace_length in E. cbn [calls tick] in E.
  unfold bind at 1 in H. unfold set_progress, call in H.
  destruct (raises OpProgress (calls s2)); [discriminate |].
  cbn in H. injection H as _ <-. cbn [progress_bar calls tick].
  split; [reflexivity | lia].
Qed.

Lemma set_progress_in_range v s :
  progress_in_range s ->
  (forall r, v = Some r -> 0 <= r <= 1) ->
  progress_in_range (snd (set_progress raises v s)).
Proof.
  intros Hs Hv. unfold set_progress, call.
  destruct (raises OpProgress (calls s)); [exact Hs | exact Hv].
Qed.

Lemma render_in_range t s :
  progress_in_range s -> progress_in_range (snd (render raises c t s)).
Proof.
  intros Hs. unfold render, call.
  destruct (raises OpRender (calls s)); exact Hs.
Qed.

Lemma bind_in_range {A B} (m : M A) (k : A -> M B) s :
  progress_in_range (snd (m s)) ->
  (forall a s1, progress_in_range s1 -> progress_in_range (snd (k a s1))) ->
  progress_in_range (snd (bind m k s)).
Proof.
  intros Hm Hk. unfold bind.
  destruct (m s) as [[a | |] s1]; cbn [snd] in *; try exact Hm.
  now apply Hk.
Qed.

Lemma append_frames_in_range total its :
  Forall (fun it => (fst it < total)%nat) its ->
  forall frames s,
    progress_in_range s ->
    progress_in_range (snd (append_frames raises c total its frames s)).
Proof.
  induction 1 as [| [i t] rest Hi _ IH]; intros frames s Hs.
  - exact Hs.
  - cbn [append_frames]. apply bind_in_range.
    + now apply render_in_range.
    + intros f s1 Hs1. apply bind_in_range.
      * apply set_progress_in_range; [exact Hs1 |].
        intros r Hr. apply some_eq in Hr. subst r. cbn [fst] in Hi.
        assert (H0 : 0 <= INR i) by apply pos_INR.
        assert (H1 : INR i + 1 <= INR total).
        { rewrite <- S_INR. apply le_INR. lia. }
        assert (Ht : 0 < INR total) by lra.
        split.
        -- apply Rmult_le_pos; [lra |]. left. now apply Rinv_0_lt_compat.
        -- apply Rmult_le_reg_r with (INR total); [exact Ht |].
           replace ((INR i + 1) / INR total * INR total)
             with (INR i + 1) by (field; lra).
           lra.
      * intros _ s2 Hs2. now apply IH.
Qed.

Lemma enumerate_indices {A} (l : list A) :
  Forall (fun it => (fst it < length l)%nat) (enumerate l).
Proof.
  apply Forall_forall. intros [i a] Hin. unfold enumerate in Hin.
  apply in_combine_l in Hin. apply in_seq in Hin. cbn [fst]. lia.
Qed.

End GenerationFacts.

(** X13: frame generation shows nothing, whichever library calls raise and
    however it ends: it leaves the placeholder, the images shown, the
    sleeps and the warnings as they were.  When it completes, it has made
    42 library calls and removed the progress bar. *)
Theorem generation_shows_nothing (raises : Op -> nat -> bool)
    (c : Controls) (s : UI) :
  placeholder (snd (generate_frames raises c s)) = placeholder s
  /\ displayed (snd (generate_frames raises c s)) = displayed s
  /\ slept (snd (generate_frames raises c s)) = slept s
  /\ warnings (snd (generate_frames raises c s)) = warnings s
  /\ (forall fs, fst (generate_frames raises c s) = Returned fs ->
        progress_bar (snd (generate_frames raises c s)) = None
        /\ calls (snd (generate_frames raises c s)) = (calls s + 42)%nat).
Proof.
  destruct (generate_frames_same_screen raises c s) as (H1 & H2 & H3 & H4).
  repeat split; try assumption;
    destruct (generate_frames raises c s) as [o s'] eqn:E;
    cbn [fst snd] in *; subst o;
    now destruct (generate_frames_end raises c s fs s' E).
Qed.

(** X14: the progress bar only ever shows a fraction between 0 and 1: if
    it does before frame generation, it does after it, whichever library
    calls raise and wherever the generation stops. *)
Theorem progress_stays_in_range (raises : Op -> nat -> bool)
    (c : Controls) (s : UI) (v : R) :
  (forall r, progress_bar s = Some r -> 0 <= r <= 1) ->
  progress_bar (snd (generate_frames raises c s)) = Some v ->
  0 <= v <= 1.
Proof.
  intros Hs. revert v. change (progress_in_range
                                 (snd (generate_frames raises c s))).
  unfold generate_frames. apply bind_in_range.
  - apply set_progress_in_range; [exact Hs |].
    intros r Hr. apply some_eq in Hr. lra.
  - intros _ s1 Hs1. apply bind_in_range.
    + apply append_frames_in_range; [apply enumerate_indices | exact Hs1].
    + intros fs s2 Hs2. apply bind_in_range.
      * apply set_progress_in_range; [exact Hs2 | discriminate].
      * intros _ s3 Hs3. exact Hs3.
Qed.

Lemma progress_stays_in_range_witness :
  0 <= (INR 0 + 1) / INR (length time_points) <= 1.
Proof.
  apply (progress_stays_in_range second_render_raises default_controls
           initial_ui).
  - discriminate.
  - reflexivity.
Defined.

Section PlaybackFacts.

Variable raises : Op -> nat -> bool.
Variable c : Controls.

Lemma play_never_returns fuel :
  forall frames frame_idx s u,
    fst (play raises c fuel frames frame_idx s) <> Returned u.
Proof.
  induction fuel as [| fuel IH]; intros frames frame_idx s u;
    [discriminate |].
  cbn [play]. destruct (nth_error frames frame_idx) as [f |];
    [| discriminate].
  unfold bind at 1.
  destruct (image raises f s) as [[[] | |] s1]; try discriminate.
  destruct (length frames) as [| n]; [discriminate |].
  unfold bind at 1.
  destruct (sleep raises _ s1) as [[[] | |] s2]; try discriminate.
  apply IH.
Qed.

Lemma repeat_snoc {A} (a : A) n l :
  repeat a n ++ a :: l = a :: repeat a n ++ l.
Proof.
  induction n as [| n IH]; [reflexivity |].
  cbn [repeat app]. now rewrite IH.
Qed.

Hypothesis quiet : forall op n, raises op n = false.

Lemma play_trace fuel :
  forall frames frame_idx s,
    (frame_idx < length frames)%nat ->
    exists s' shown,
      play raises c fuel frames frame_idx s = (Running, s')
      /\ displayed s' = rev shown ++ displayed s
      /\ length shown = fuel
      /\ (forall k, (k < fuel)%nat ->
            nth_error shown k
            = nth_error frames ((frame_idx + k) mod length frames))
      /\ slept s' = repeat (0.05 / speed c) fuel ++ slept s
      /\ warnings s' = warnings s
      /\ calls s' = (calls s + 2 * fuel)%nat
      /\ ((0 < fuel)%nat -> placeholder s' = hd_error (displayed s')).
Proof.
  induction fuel as [| fuel IH]; intros frames frame_idx s Hi.
  - exists s, []. cbn. repeat split; intros; lia.
  - cbn [play].
    destruct (nth_error frames frame_idx) as [f |] eqn:E.
    2:{ apply nth_error_None in E. lia. }
    unfold bind at 1. unfold image. rewrite call_succeeds by apply quiet.
    cbn [fst snd].
    destruct (length frames) as [| n] eqn:El; [lia |].
    unfold bind at 1. unfold sleep. rewrite call_succeeds by apply quiet.
    cbn [fst snd]. rewrite <- El.
    match goal with
    | |- context [play _ _ fuel frames ?i ?s0] =>
        destruct (IH frames i s0) as
          (s' & shown & Hrun & Hd & Hl & Hn & Hs & Hw & Hc & Hp)
    end.
    { apply Nat.mod_upper_bound. lia. }
    cbn [displayed slept warnings calls tick] in *.
    exists s', (f :: shown). split; [exact Hrun |].
    split. { rewrite Hd. cbn [rev]. now rewrite <- app_assoc. }
    split. { cbn [length]. now rewrite Hl. }
    split.
    { intros [| k] Hk.
      - cbn [nth_error]. rewrite Nat.add_0_r, Nat.mod_small by lia.
        now symmetry.
      - cbn [nth_error]. rewrite Hn by lia.
        rewrite Nat.Div0.add_mod_idemp_l. f_equal. f_equal. lia. }
    split. { rewrite Hs. cbn [repeat]. apply repeat_snoc. }
    split; [exact Hw |].
    split; [lia |].
    intros _. destruct fuel as [| fuel'].
    + cbn [play] in Hrun. injection Hrun as <-. reflexivity.
    + apply Hp. lia.
Qed.

End PlaybackFacts.

(** X15: while no library call raises, the playback loop started at a valid
    index shows one frame per iteration, in list order and wrapping to the
    first frame after the last; it sleeps [0.05 / speed] after each, issues
    no warning, makes two library calls per iteration, leaves the last
    image shown in the placeholder and is still running after any number
    of iterations. *)
Theorem playback_cycles_in_order (raises : Op -> nat -> bool)
    (c : Controls) (fuel : nat) (frames : list Frame) (frame_idx : nat)
    (s : UI) :
  (forall op n, raises op n = false) ->
  (frame_idx < length frames)%nat ->
  exists s' shown,
    play raises c fuel frames frame_idx s = (Running, s')
    /\ displayed s' = rev shown ++ displayed s
    /\ length shown = fuel
    /\ (forall k, (k < fuel)%nat ->
          nth_error shown k
          = nth_error frames ((frame_idx + k) mod length frames))
    /\ slept s' = repeat (0.05 / speed c) fuel ++ slept s
    /\ warnings s' = warnings s
    /\ calls s' = (calls s + 2 * fuel)%nat
    /\ ((0 < fuel)%nat -> placeholder s' = hd_error (displayed s')).
Proof.
  intros quiet Hi. now apply play_trace.
Qed.

Lemma playback_cycles_in_order_witness :
  exists s',
    play nothing_raises default_controls 3
      [create_animation_frame default_controls 0;
       create_animation_frame default_controls 0.5] 1 initial_ui
    = (Running, s')
    /\ calls s' = 6%nat.
Proof.
  destruct (playback_cycles_in_order nothing_raises default_controls 3
              [create_animation_frame default_controls 0;
               create_animation_frame default_controls 0.5] 1 initial_ui)
    as (s' & shown & Hrun & _ & _ & _ & _ & _ & Hc & _).
  - intros op n. reflexivity.
  - simpl. lia.
  - exists s'. split; [exact Hrun | exact Hc].
Defined.

Lemma update_animation_no_return (raises : Op -> nat -> bool)
    (c : Controls) (fuel : nat) (s : UI) (u : unit) :
  fst (update_animation raises c fuel s) <> Returned u.
Proof.
  unfold update_animation, bind.
  destruct (generate_frames raises c s) as [[fs | |] s1];
    try discriminate.
  apply play_never_returns.
Qed.

(** X16: the animation never returns: whichever library calls raise and
    however many iterations are observed, [update_animation] either raises
    or is still running. *)
Theorem update_animation_never_returns (raises : Op -> nat -> bool)
    (c : Controls) (fuel : nat) (s : UI) (u : unit) :
  fst (update_animation raises c fuel s) <> Returned u.
Proof.
  apply update_animation_no_return.
Qed.

(** X17: the script gets past the [try] statement only through the
    handler: if it returns, the animation had raised, and the placeholder
    holds the frame rendered at time 0, shown after everything shown before
    the error, with the warning issued last. *)
Theorem returning_means_fallback_ran (raises : Op -> nat -> bool)
    (c : Controls) (fuel : nat) (s s2 : UI) :
  run_app raises c fuel s = (Returned tt, s2) ->
  exists s1,
    update_animation raises c fuel s = (Raised, s1)
    /\ placeholder s2 = Some (create_animation_frame c 0)
    /\ displayed s2 = create_animation_frame c 0 :: displayed s1
    /\ warnings s2 = paused_message :: warnings s1
    /\ slept s2 = slept s1.
Proof.
  intros H. unfold run_app, try_except in H.
  pose proof (update_animation_no_return raises c fuel s) as Hnr.
  destruct (update_animation raises c fuel s) as [[[] | |] s1].
  - exfalso. now apply (Hnr tt).
  - exists s1. split; [reflexivity |].
    destruct (raises OpRender (calls s1)) eqn:Hr.
    { destruct (show_static_frame_raises raises c s1) as [s3 [E _]];
        [now left | congruence]. }
    destruct (raises OpImage (S (calls s1))) eqn:Hi.
    { destruct (show_static_frame_raises raises c s1) as [s3 [E _]];
        [now right; left | congruence]. }
    destruct (raises OpWarning (S (S (calls s1)))) eqn:Hw.
    { destruct (show_static_frame_raises raises c s1) as [s3 [E _]];
        [now right; right | congruence]. }
    rewrite (show_static_frame_succeeds raises c s1 Hr Hi Hw) in H.
    injection H as <-. repeat split.
  - discriminate.
Qed.

Lemma returning_means_fallback_ran_witness :
  exists s1,
    update_animation first_display_raises default_controls 1 initial_ui
    = (Raised, s1)
    /\ Some (create_animation_frame default_controls 0)
       = Some (create_animation_frame default_controls 0)
    /\ [create_animation_frame default_controls 0]
       = create_animation_frame default_controls 0 :: displayed s1
    /\ [paused_message] = paused_message :: warnings s1
    /\ @nil R = slept s1.
Proof.
  exact (returning_means_fallback_ran first_display_raises
           default_controls 1 initial_ui
           {| calls := 46;
              placeholder := Some (create_animation_frame default_controls 0);
              displayed := [create_animation_frame default_controls 0];
              progress_bar := None; slept := [];
              warnings := [paused_message] |}
           eq_refl).
Defined.

(** X18: while no library call raises, the script generates the 20 frames
    with 42 library calls and then plays them for ever: after any number
    [n] of iterations it is still running, no warning was issued, and the
    [k]-th image shown is the frame of the time point [(k mod 20) / 19]. *)
Theorem error_free_playback (raises : Op -> nat -> bool) (c : Controls)
    (fuel : nat) (s : UI) :
  (forall op n, raises op n = false) ->
  exists s' shown,
    run_app raises c fuel s = (Running, s')
    /\ displayed s' = rev shown ++ displayed s
    /\ length shown = fuel
    /\ (forall k, (k < fuel)%nat ->
          nth_error shown k
          = Some (create_animation_frame c (INR (k mod 20) / 19)))
    /\ slept s' = repeat (0.05 / speed c) fuel ++ slept s
    /\ warnings s' = warnings s
    /\ calls s' = (calls s + 42 + 2 * fuel)%nat.
Proof.
  intros quiet.
  destruct (generate_frames_quiet raises c quiet s) as [s1 E].
  destruct (generate_frames_same_screen raises c s) as (_ & G2 & G3 & G4).
  destruct (generate_frames_end raises c s _ s1 E) as [_ Gc].
  rewrite E in G2, G3, G4. cbn [snd] in G2, G3, G4.
  destruct (play_trace raises c quiet fuel (frames_of c time_points) 0 s1)
    as (s' & shown & Hrun & Hd & Hl & Hn & Hs & Hw & Hc & _).
  { rewrite frames_of_time_points_length. lia. }
  exists s', shown. split.
  { unfold run_app, try_except, update_animation, bind.
    rewrite E, Hrun. reflexivity. }
  split; [congruence |]. split; [exact Hl |]. split.
  { intros k Hk. rewrite Hn by exact Hk.
    rewrite frames_of_time_points_length. cbn [Nat.add].
    unfold frames_of. rewrite nth_error_map.
    rewrite time_points_nth_error by (apply Nat.mod_upper_bound; lia).
    reflexivity. }
  split; [congruence |]. split; [congruence | lia].
Qed.

Lemma error_free_playback_witness :
  exists s',
    run_app nothing_raises default_controls 21 initial_ui = (Running, s')
    /\ warnings s' = []
    /\ calls s' = 84%nat.
Proof.
  destruct (error_free_playback nothing_raises default_controls 21
              initial_ui (fun _ _ => eq_refl))
    as (s' & shown & Hrun & _ & _ & _ & _ & Hw & Hc).
  exists s'. split; [exact Hrun |]. split; [exact Hw | exact Hc].
Defined.
